(** * zPBPTool: the PBP container codec of [main.c]

    A shallow embedding of [main.c] (header model, [validate_header],
    [analyze_file], [read_file_to_buffer], [unpack_pbp], [pack_pbp] and
    [main]) together with the properties of its specification.

    Modelling conventions.
    - Target: LP64 little-endian (the Linux/macOS builds named at the top of
      [main.c]): [long] and [size_t] are 64 bits wide, [uint32_t] arithmetic
      wraps modulo 2^32, the packed header is laid out little-endian.
    - Machine integers are [Z]; every narrowing cast of the source is
      written out with [to_uint32].
    - The file system is a finite map from paths to byte contents.  Opening
      a file for reading fails exactly when the path is not in the map.
      Whether a file can be created and whether the output directory can be
      made is decided by the environment [Env].
    - [malloc] succeeds, [fwrite] on an open stream writes all its bytes, and
      paths fit the 4096-byte [outpath] buffer: resource exhaustion is
      outside the model.
    - [stdout] and [stderr] are lists of structured lines, one constructor
      per [printf]/[fprintf] format of the source. *)

From Stdlib Require Import ZArith NArith Lia.
From Stdlib Require Import Strings.Byte.
From stdpp Require Import gmap strings list.

Local Open Scope Z_scope.

(** ** Machine integers and bytes *)

Definition to_uint32 (x : Z) : Z := x mod 2 ^ 32.

Definition byte_to_Z (b : byte) : Z := Z.of_N (Byte.to_N b).

Definition Z_to_byte (z : Z) : byte :=
  match Byte.of_N (Z.to_N (z mod 256)) with
  | Some b => b
  | None => x00
  end.

#[global] Instance byte_inhabited : Inhabited byte := populate x00.

(** Little-endian image of an [n]-byte unsigned field and its value. *)
Fixpoint le_bytes (n : nat) (v : Z) : list byte :=
  match n with
  | O => []
  | S n' => Z_to_byte v :: le_bytes n' (v / 256)
  end.

Fixpoint le_value (bs : list byte) : Z :=
  match bs with
  | [] => 0
  | b :: bs' => byte_to_Z b + 256 * le_value bs'
  end.

(** ** Header model *)

(** [typedef struct { uint8_t signature[4]; uint16_t version[2];
    uint32_t offset[8]; } PBPHeader;] packed, 40 bytes. *)
Record PBPHeader := mkHeader {
  signature : list byte;
  version : list Z;
  offset : list Z
}.

Definition sizeof_PBPHeader : Z := 40.

(** A header value that fits the struct: array lengths and field widths. *)
Record header_wf (h : PBPHeader) : Prop := {
  wf_signature : length (signature h) = 4%nat;
  wf_version : length (version h) = 2%nat;
  wf_offset : length (offset h) = 8%nat;
  wf_version_range : Forall (fun v => 0 <= v < 2 ^ 16) (version h);
  wf_offset_range : Forall (fun o => 0 <= o < 2 ^ 32) (offset h)
}.

(** [memset(&header, 0, sizeof(header))] *)
Definition zero_header : PBPHeader :=
  {| signature := replicate 4 x00; version := replicate 2 0; offset := replicate 8 0 |}.

(** The 40 bytes [fwrite(&header, 1, sizeof(header), out)] emits. *)
Definition header_bytes (h : PBPHeader) : list byte :=
  signature h ++ flat_map (le_bytes 2) (version h) ++ flat_map (le_bytes 4) (offset h).

(** [fread(&header, 1, sizeof(header), f) != sizeof(header)] fails on a file
    shorter than 40 bytes; otherwise the fields are read off the bytes. *)
Definition read_header (content : list byte) : option PBPHeader :=
  if (Z.of_nat (length content) <? sizeof_PBPHeader) then None
  else Some {|
    signature := take 4 content;
    version := map (fun k => le_value (take 2 (drop (4 + 2 * k) content))) (seq 0 2);
    offset := map (fun k => le_value (take 4 (drop (8 + 4 * k) content))) (seq 0 8)
  |}.

Definition default_file_names : list string :=
  ["PARAM.SFO"; "ICON0.PNG"; "ICON1.PMF"; "PIC0.PNG";
   "PIC1.PNG"; "SND0.AT3"; "DATA.PSP"; "DATA.PSAR"]%string.

(** ** Console output *)

(** One constructor per [fprintf(stderr, ...)] format. *)
Inductive ErrLine :=
| ErrError (msg : string)              (* "Error: %s\n" *)
| ErrInvalidVersion (v0 v1 : Z)        (* "Invalid version: %u.%u\n" *)
| ErrFailedOpen (path : string)        (* "Failed to open '%s': %s\n" *)
| ErrFailedMkdir (path : string)       (* "Failed to create directory '%s': %s\n" *)
| ErrSkipping (name : string)          (* "Skipping %s: invalid offset/size\n" *)
| ErrFailedCreate (path : string)      (* "Failed to create '%s': %s\n" *)
| ErrFailedReadInput (path : string)   (* "Failed to read input file '%s'\n" *)
| ErrFailedCreateOutput (path : string)(* "Failed to create output '%s': %s\n" *)
| ErrUsage                             (* "Usage: pbptool <pack | unpack | analyze | help>\n" *)
| ErrUsageOf (cmd : string).           (* "Usage: pbptool <cmd> ...\n" *)

(** One constructor per [printf] format. *)
Inductive OutLine :=
| OutHeaderTitle                        (* "PBP Header:\n" *)
| OutSignature (s0 s1 s2 s3 : byte)     (* "\tSignature:\t%c%c%c%c\n" *)
| OutVersion (major minor : Z)          (* "\tVersion:\t%u.%u\n" *)
| OutOffsetsTitle                       (* "Offsets:\n" *)
| OutSegment (name : string) (off : option Z) (* "\t%s:\t%u\n" or "\t%s:\tNULL\n" *)
| OutUsage.                             (* help text *)

(** ** Validator *)

Definition ch_P : byte := x50.
Definition ch_B : byte := x42.

(** [validate_header]: the return value and what it prints on [stderr]. *)
Definition validate_header (h : PBPHeader) : Z * list ErrLine :=
  if negb (Byte.eqb (signature h !!! 1%nat) ch_P)
     || negb (Byte.eqb (signature h !!! 2%nat) ch_B)
     || negb (Byte.eqb (signature h !!! 3%nat) ch_P)
  then (-1, [])
  else if negb (version h !!! 1%nat =? 1) && negb (version h !!! 0%nat =? 0)
  then (-2, [ErrInvalidVersion (version h !!! 0%nat) (version h !!! 1%nat)])
  else (0, []).

(** ** Processes and their environment *)

(** What the operating system decides: whether [fopen(path, "wb")] succeeds
    and whether [mkdir] succeeds or reports [EEXIST]. *)
Record Env := mkEnv {
  can_create : string -> bool;
  mkdir_ok : string -> bool
}.

(** State of a run: [exited] is [Some c] once [exit(c)] was called. *)
Record Run := mkRun {
  exited : option Z;
  files : gmap string (list byte);
  stdout : list OutLine;
  stderr : list ErrLine
}.

(** [exit(1)] after printing [e] on [stderr], the file system untouched. *)
Definition die (fs : gmap string (list byte)) (e : list ErrLine) : Run :=
  {| exited := Some 1; files := fs; stdout := []; stderr := e |}.

(** [print_error_and_exit] *)
Definition print_error_and_exit (fs : gmap string (list byte))
    (before : list ErrLine) (msg : string) : Run :=
  die fs (before ++ [ErrError msg]).

(** ** inspect: [analyze_file] *)

(** Body of the reporting loop of [analyze_file] for index [i]. *)
Definition analyze_line (header : PBPHeader) (i : nat) : OutLine :=
  let offset_i := offset header !!! i in
  if (i + 1 <? 8)%nat && (offset header !!! (i + 1)%nat >? offset_i)
  then OutSegment (default_file_names !!! i) (Some offset_i)
  else OutSegment (default_file_names !!! i) None.

Definition analyze_file (fs : gmap string (list byte)) (file_path : string) : Run :=
  match fs !! file_path with
  | None => die fs [ErrFailedOpen file_path]
  | Some content =>
    match read_header content with
    | None => print_error_and_exit fs [] "Failed to read header"
    | Some header =>
      let '(v, diag) := validate_header header in
      if negb (v =? 0) then print_error_and_exit fs diag "Header validation failed"
      else
        {| exited := None; files := fs;
           stdout :=
             [OutHeaderTitle;
              OutSignature (signature header !!! 0%nat) (signature header !!! 1%nat)
                           (signature header !!! 2%nat) (signature header !!! 3%nat);
              OutVersion (version header !!! 1%nat) (version header !!! 0%nat);
              OutOffsetsTitle]
             ++ map (analyze_line header) (seq 0 8);
           stderr := diag |}
    end
  end.

(** ** [read_file_to_buffer] *)

(** Returns the buffer and [*out_len], or [None] for the [NULL] result. *)
Definition read_file_to_buffer (fs : gmap string (list byte)) (path : string)
    : option (list byte * Z) :=
  match fs !! path with
  | None => None
  | Some content => Some (content, Z.of_nat (length content))
  end.

(** ** split: [unpack_pbp] *)

(** The offset resolver at the head of the extraction loop: the value of
    [file_size] for index [i], given [file_len] as [ftell] returned it. *)
Definition segment_size (header : PBPHeader) (file_len : Z) (i : nat) : Z :=
  let offset_i := offset header !!! i in
  if (i + 1 <? 8)%nat then
    if offset header !!! (i + 1)%nat >? offset_i
    then to_uint32 (offset header !!! (i + 1)%nat - offset_i)
    else 0
  else
    if to_uint32 file_len >? offset_i
    then to_uint32 (to_uint32 file_len - offset_i)
    else 0.

(** [snprintf(outpath, sizeof(outpath), "%s/%s", dir_path, default_file_names[i])] *)
Definition outpath (dir_path : string) (i : nat) : string :=
  (dir_path +:+ "/" +:+ default_file_names !!! i)%string.

(** One iteration of the extraction loop, on the file system and [stderr]. *)
Definition unpack_segment (env : Env) (dir_path : string) (content : list byte)
    (header : PBPHeader) (st : gmap string (list byte) * list ErrLine) (i : nat)
    : gmap string (list byte) * list ErrLine :=
  let file_len := Z.of_nat (length content) in
  let offset_i := offset header !!! i in
  let file_size := segment_size header file_len i in
  if file_size =? 0 then st
  else
    let corrected_offset := offset_i - sizeof_PBPHeader in
    if (corrected_offset <? 0) || (corrected_offset + file_size >? file_len)
    then (st.1, st.2 ++ [ErrSkipping (default_file_names !!! i)])
    else
      if can_create env (outpath dir_path i)
      then (<[outpath dir_path i :=
                take (Z.to_nat file_size) (drop (Z.to_nat corrected_offset) content)]> st.1,
            st.2)
      else (st.1, st.2 ++ [ErrFailedCreate (outpath dir_path i)]).

Definition unpack_loop (env : Env) (dir_path : string) (content : list byte)
    (header : PBPHeader) (idx : list nat) (st : gmap string (list byte) * list ErrLine)
    : gmap string (list byte) * list ErrLine :=
  foldl (unpack_segment env dir_path content header) st idx.

Definition unpack_pbp (env : Env) (fs : gmap string (list byte))
    (input_path dir_path : string) : Run :=
  match fs !! input_path with
  | None => die fs [ErrFailedOpen input_path]
  | Some content =>
    match read_header content with
    | None => print_error_and_exit fs [] "Failed to read header"
    | Some header =>
      let '(v, diag) := validate_header header in
      if negb (v =? 0) then print_error_and_exit fs diag "Header validation failed"
      else if negb (mkdir_ok env dir_path) then die fs (diag ++ [ErrFailedMkdir dir_path])
      else
        let st := unpack_loop env dir_path content header (seq 0 8) (fs, diag) in
        {| exited := None; files := st.1; stdout := []; stderr := st.2 |}
    end
  end.

(** ** assemble: [pack_pbp] *)

(** The locals of [pack_pbp]. *)
Record PackState := mkPack {
  header : PBPHeader;
  contents : list (option (list byte));
  sizes : list Z;
  curr_offset : Z
}.

Definition set_offset (h : PBPHeader) (i : nat) (v : Z) : PBPHeader :=
  {| signature := signature h; version := version h; offset := <[i := v]> (offset h) |}.

Definition pack_init : PackState :=
  {| header :=
       {| signature := <[3%nat := ch_P]> (<[2%nat := ch_B]> (<[1%nat := ch_P]>
                         (<[0%nat := x00]> (signature zero_header))));
          version := <[1%nat := 1]> (<[0%nat := 0]> (version zero_header));
          offset := offset zero_header |};
     contents := replicate 8 None;
     sizes := replicate 8 0;
     curr_offset := to_uint32 sizeof_PBPHeader |}.

(** One iteration of the loading loop; [inl] is the [exit(1)] branch. *)
Definition pack_slot (fs : gmap string (list byte)) (input_paths : list string)
    (st : PackState) (i : nat) : ErrLine + PackState :=
  let hdr := set_offset (header st) i (curr_offset st) in
  let path := input_paths !!! i in
  if String.eqb path "NULL" then
    inr {| header := hdr; contents := <[i := None]> (contents st);
           sizes := <[i := 0]> (sizes st); curr_offset := curr_offset st |}
  else
    match read_file_to_buffer fs path with
    | None => inl (ErrFailedReadInput path)
    | Some (buf, len) =>
      inr {| header := hdr; contents := <[i := Some buf]> (contents st);
             sizes := <[i := len]> (sizes st);
             curr_offset := to_uint32 (curr_offset st + to_uint32 len) |}
    end.

Fixpoint pack_load (fs : gmap string (list byte)) (input_paths : list string)
    (idx : list nat) (st : PackState) : ErrLine + PackState :=
  match idx with
  | [] => inr st
  | i :: rest =>
    match pack_slot fs input_paths st i with
    | inl e => inl e
    | inr st' => pack_load fs input_paths rest st'
    end
  end.

(** The bytes the writing loop appends after the header. *)
Definition pack_body (st : PackState) : list byte :=
  flat_map (fun i => if sizes st !!! i =? 0 then []
                     else take (Z.to_nat (sizes st !!! i)) (default [] (contents st !!! i)))
           (seq 0 8).

Definition pack_pbp (env : Env) (fs : gmap string (list byte))
    (output_path : string) (input_paths : list string) : Run :=
  match pack_load fs input_paths (seq 0 8) pack_init with
  | inl e => die fs [e]
  | inr st =>
    if negb (can_create env output_path) then die fs [ErrFailedCreateOutput output_path]
    else
      {| exited := None;
         files := <[output_path := header_bytes (header st) ++ pack_body st]> fs;
         stdout := []; stderr := [] |}
  end.

(** ** [main] *)

(** What the process leaves behind: exit code, files, console. *)
Definition finish (r : Run) : Run :=
  match exited r with
  | Some _ => r
  | None => {| exited := Some 0; files := files r; stdout := stdout r; stderr := stderr r |}
  end.

(** [argc] is [length argv].  [pack] is let through from ten arguments
    on although it reads [argv[3]] to [argv[10]]: with exactly ten, the
    source hands [argv[10]], the terminating null pointer, to [fopen];
    the model reads the empty path there.  The results below use [pack]
    with all eight sources. *)
Definition main (env : Env) (fs : gmap string (list byte)) (argv : list string) : Run :=
  let argc := length argv in
  if (argc <? 2)%nat then die fs [ErrUsage]
  else
    let cmd := argv !!! 1%nat in
    if String.eqb cmd "pack" then
      if (argc <? 10)%nat then die fs [ErrUsageOf "pack"]
      else finish (pack_pbp env fs (argv !!! 2%nat) (map (fun i => argv !!! (3 + i)%nat) (seq 0 8)))
    else if String.eqb cmd "unpack" then
      if (argc <? 4)%nat then die fs [ErrUsageOf "unpack"]
      else finish (unpack_pbp env fs (argv !!! 2%nat) (argv !!! 3%nat))
    else if String.eqb cmd "analyze" then
      if (argc <? 3)%nat then die fs [ErrUsageOf "analyze"]
      else finish (analyze_file fs (argv !!! 2%nat))
    else if String.eqb cmd "help" then
      {| exited := Some 0; files := fs; stdout := [OutUsage]; stderr := [] |}
    else die fs [ErrError ("Invalid argument '" +:+ cmd +:+ "'")].

(** ** Closed forms of the loops of [pack_pbp] *)

(** [strcmp(input_paths[i], "NULL") == 0] *)
Definition is_null (path : string) : bool := String.eqb path "NULL".

(** What slot [path] leaves in [contents[i]] and [sizes[i]]. *)
Definition slot_buf (fs : gmap string (list byte)) (path : string) : option (list byte) :=
  if is_null path then None else fs !! path.

Definition slot_len (fs : gmap string (list byte)) (path : string) : Z :=
  if is_null path then 0 else Z.of_nat (length (default [] (fs !! path))).

(** The bytes slot [path] contributes to the container. *)
Definition source_bytes (fs : gmap string (list byte)) (path : string) : list byte :=
  default [] (slot_buf fs path).

Definition unreadable (fs : gmap string (list byte)) (path : string) : bool :=
  negb (is_null path) && negb (bool_decide (is_Some (fs !! path))).

Definition first_unreadable (fs : gmap string (list byte)) (paths : list string)
    : option string :=
  List.find (unreadable fs) paths.

(** [curr_offset] after the iteration for slot [path]. *)
Definition next_offset (fs : gmap string (list byte)) (c : Z) (path : string) : Z :=
  if is_null path then c else to_uint32 (c + to_uint32 (slot_len fs path)).

Fixpoint offsets_from (fs : gmap string (list byte)) (c : Z) (paths : list string) : list Z :=
  match paths with
  | [] => []
  | p :: ps => c :: offsets_from fs (next_offset fs c p) ps
  end.

Definition cursor_after (fs : gmap string (list byte)) (c : Z) (paths : list string) : Z :=
  foldl (next_offset fs) c paths.

(** The header [pack_pbp] holds when its loading loop is done. *)
Definition pack_header (fs : gmap string (list byte)) (input_paths : list string)
    : option PBPHeader :=
  match pack_load fs input_paths (seq 0 8) pack_init with
  | inl _ => None
  | inr st => Some (header st)
  end.

(** Sum of the lengths of the sources of the first [i] slots. *)
Definition sources_size (fs : gmap string (list byte)) (paths : list string) : Z :=
  foldr (fun p acc => slot_len fs p + acc) 0 paths.

(** ** The offset resolver as the specification words it *)

Definition resolver_length (offsets : list Z) (file_length : Z) (i : nat) : Z :=
  let start := offsets !!! i in
  if (i <? 7)%nat
  then (if offsets !!! (i + 1)%nat >? start then offsets !!! (i + 1)%nat - start else 0)
  else (if file_length >? start then file_length - start else 0).

(** ** Sample data *)

Definition env_ok : Env := {| can_create := fun _ => true; mkdir_ok := fun _ => true |}.

Definition sample_header (s0 : byte) (v0 v1 : Z) (offs : list Z) : PBPHeader :=
  {| signature := [s0; ch_P; ch_B; ch_P]; version := [v0; v1]; offset := offs |}.

Definition eight_names : list string := ["s0"; "s1"; "s2"; "s3"; "s4"; "s5"; "s6"; "s7"]%string.

(** Eight one-byte source files, each holding the letter A. *)
Definition fs_eight : gmap string (list byte) :=
  list_to_map (map (fun n => (n, [x41])) eight_names).

Definition packed_eight : list byte :=
  default [] (files (pack_pbp env_ok fs_eight "out.pbp" eight_names) !! "out.pbp"%string).

(** [a.sfo] and [data.bin], one byte each. *)
Definition fs_scenario : gmap string (list byte) :=
  <["a.sfo"%string := [x01]]> (<["data.bin"%string := [x02]]> ∅).

Definition scenario_inputs : list string :=
  ["a.sfo"; "NULL"; "NULL"; "NULL"; "NULL"; "NULL"; "NULL"; "data.bin"]%string.

(** A source file of 2^32 - 40 bytes. *)
Definition big_file : list byte := replicate (Z.to_nat (2 ^ 32 - 40)) x00.

Definition fs_big : gmap string (list byte) := {[ "big.bin"%string := big_file ]}.

Definition big_inputs : list string :=
  ["big.bin"; "NULL"; "NULL"; "NULL"; "NULL"; "NULL"; "NULL"; "NULL"]%string.

(** [packed_eight] cut to 46 bytes, one short of its last offset, 47. *)
Definition truncated_eight : list byte := take 46 packed_eight.

Definition fs_truncated : gmap string (list byte) := {[ "t.pbp"%string := truncated_eight ]}.

(** [packed_eight] cut inside its header. *)
Definition fs_headless : gmap string (list byte) := {[ "t.pbp"%string := take 39 packed_eight ]}.

(** The header of a container without segments. *)
Definition null_header : PBPHeader := sample_header x00 0 1 (replicate 8 40).

Definition all_null : list string := replicate 8 "NULL"%string.


(** ** Closed form of the container [pack_pbp] writes *)

Definition packed_header (fs : gmap string (list byte)) (inputs : list string) : PBPHeader :=
  {| signature := [x00; ch_P; ch_B; ch_P]; version := [0; 1];
     offset := offsets_from fs 40 inputs |}.

Definition packed_container (fs : gmap string (list byte)) (inputs : list string)
    : list byte :=
  header_bytes (packed_header fs inputs) ++ flat_map (source_bytes fs) inputs.

(** One empty source file next to [a.sfo] and [data.bin]. *)
Definition fs_with_empty : gmap string (list byte) :=
  <["empty.png"%string := []]> fs_scenario.

Definition inputs_with_empty : list string :=
  ["a.sfo"; "empty.png"; "NULL"; "NULL"; "NULL"; "NULL"; "NULL"; "data.bin"]%string.

(** A header with a wrong signature and a version that is wrong as well. *)
Definition bad_signature_header : PBPHeader :=
  {| signature := [x00; ch_P; ch_P; ch_P]; version := [5; 2]; offset := replicate 8 40 |}.

(** * Properties *)

(** ** Bytes and little-endian fields *)

Lemma to_uint32_range x : 0 <= to_uint32 x < 2 ^ 32.
Proof. unfold to_uint32. apply Z.mod_pos_bound. lia. Qed.

Lemma to_uint32_small x : 0 <= x < 2 ^ 32 -> to_uint32 x = x.
Proof. intros H. unfold to_uint32. apply Z.mod_small. lia. Qed.

Lemma to_uint32_add_r a b : to_uint32 (a + to_uint32 b) = to_uint32 (a + b).
Proof. unfold to_uint32. apply Zplus_mod_idemp_r. Qed.

Lemma to_uint32_add_l a b : to_uint32 (to_uint32 a + b) = to_uint32 (a + b).
Proof. unfold to_uint32. apply Zplus_mod_idemp_l. Qed.

Lemma byte_to_Z_to_byte z : byte_to_Z (Z_to_byte z) = z mod 256.
Proof.
  unfold byte_to_Z, Z_to_byte.
  assert (Hr : 0 <= z mod 256 < 256) by (apply Z.mod_pos_bound; lia).
  destruct (Byte.of_N (Z.to_N (z mod 256))) as [b|] eqn:E.
  - apply Byte.to_of_N in E. rewrite E. lia.
  - apply Byte.of_N_None_iff in E. lia.
Qed.

Lemma length_le_bytes n v : length (le_bytes n v) = n.
Proof. revert v. induction n as [|n IH]; intros v; simpl; [done | by rewrite IH]. Qed.

Lemma le_value_le_bytes n v : le_value (le_bytes n v) = v mod 256 ^ Z.of_nat n.
Proof.
  revert v. induction n as [|n IH]; intros v.
  - simpl. by rewrite Z.mod_1_r.
  - cbn [le_bytes le_value]. rewrite byte_to_Z_to_byte, IH.
    rewrite Nat2Z.inj_succ, Z.pow_succ_r by lia.
    rewrite Z.rem_mul_r by lia. lia.
Qed.

Lemma le_value_le_bytes_2 v : 0 <= v < 2 ^ 16 -> le_value (le_bytes 2 v) = v.
Proof. intros H. rewrite le_value_le_bytes. apply Z.mod_small. simpl. lia. Qed.

Lemma le_value_le_bytes_4 v : 0 <= v < 2 ^ 32 -> le_value (le_bytes 4 v) = v.
Proof. intros H. rewrite le_value_le_bytes. apply Z.mod_small. simpl. lia. Qed.

Lemma byte_to_Z_range b : 0 <= byte_to_Z b < 256.
Proof. unfold byte_to_Z. pose proof (Byte.to_N_bounded b). lia. Qed.

Lemma le_value_range bs : 0 <= le_value bs < 256 ^ Z.of_nat (length bs).
Proof.
  induction bs as [|b bs IH].
  - simpl. lia.
  - cbn [le_value length]. rewrite Nat2Z.inj_succ, Z.pow_succ_r by lia.
    pose proof (byte_to_Z_range b). nia.
Qed.

(** ** The header on disk *)

Lemma length_header_bytes h : header_wf h -> length (header_bytes h) = 40%nat.
Proof.
  intros [Hs Hv Ho _ _]. destruct h as [sig ver off]; simpl in *.
  do 5 (destruct sig as [|? sig]; try discriminate).
  do 3 (destruct ver as [|? ver]; try discriminate).
  do 9 (destruct off as [|? off]; try discriminate).
  reflexivity.
Qed.

(** Reading back the 40 bytes [pack_pbp] writes gives the header it held. *)
Lemma read_header_bytes h body :
  header_wf h -> read_header (header_bytes h ++ body) = Some h.
Proof.
  intros Hwf. pose proof (length_header_bytes h Hwf) as Hlen.
  destruct Hwf as [Hs Hv Ho Hvr Hor]. destruct h as [sig ver off]; simpl in *.
  unfold read_header.
  replace (Z.of_nat (length (header_bytes (mkHeader sig ver off) ++ body)) <? sizeof_PBPHeader)
    with false
    by (symmetry; apply Z.ltb_ge; rewrite length_app, Hlen; unfold sizeof_PBPHeader; lia).
  clear Hlen.
  do 5 (destruct sig as [|? sig]; try discriminate).
  do 3 (destruct ver as [|? ver]; try discriminate).
  do 9 (destruct off as [|? off]; try discriminate).
  repeat match goal with H : Forall _ (_ :: _) |- _ => apply Forall_cons in H; destruct H end.
  unfold header_bytes.
  cbn [signature version offset flat_map le_bytes le_value app take drop seq map
       Nat.add Nat.mul].
  repeat match goal with
  | |- context [byte_to_Z (Z_to_byte ?v) + 256 * (byte_to_Z (Z_to_byte (?v / 256)) + 256 * 0)] =>
      change (byte_to_Z (Z_to_byte v) + 256 * (byte_to_Z (Z_to_byte (v / 256)) + 256 * 0))
        with (le_value (le_bytes 2 v));
      rewrite (le_value_le_bytes_2 v) by assumption
  | |- context [byte_to_Z (Z_to_byte ?v) + 256 * (byte_to_Z (Z_to_byte (?v / 256)) + 256 * ?r)] =>
      change (byte_to_Z (Z_to_byte v) + 256 * (byte_to_Z (Z_to_byte (v / 256)) + 256 * r))
        with (le_value (le_bytes 4 v));
      rewrite (le_value_le_bytes_4 v) by assumption
  end.
  reflexivity.
Qed.

Lemma le_value_take_range n bs : 0 <= le_value (take n bs) < 256 ^ Z.of_nat n.
Proof.
  pose proof (le_value_range (take n bs)) as Hr.
  assert (256 ^ Z.of_nat (length (take n bs)) <= 256 ^ Z.of_nat n).
  { apply Z.pow_le_mono_r; [lia|]. rewrite length_take. lia. }
  lia.
Qed.

Lemma read_header_wf content h : read_header content = Some h -> header_wf h.
Proof.
  unfold read_header. destruct (_ <? _) eqn:E; [discriminate|].
  apply Z.ltb_ge in E. unfold sizeof_PBPHeader in E.
  intros [= <-]. split; cbn [signature version offset].
  - rewrite length_take. lia.
  - reflexivity.
  - reflexivity.
  - cbn [map seq].
    repeat (apply Forall_cons; split; [apply (le_value_take_range 2)|]). apply Forall_nil_2.
  - cbn [map seq].
    repeat (apply Forall_cons; split; [apply (le_value_take_range 4)|]). apply Forall_nil_2.
Qed.

Lemma header_wf_offset h i : header_wf h -> 0 <= offset h !!! i < 2 ^ 32.
Proof.
  intros [_ _ _ _ Ho]. destruct (offset h !! i) as [o|] eqn:E.
  - rewrite (list_lookup_total_correct _ _ _ E).
    eapply Forall_lookup_1 in Ho; eauto.
  - rewrite list_lookup_total_alt, E. simpl. lia.
Qed.

(** ** Validator *)

Lemma validate_header_ok_quiet h : (validate_header h).1 = 0 -> validate_header h = (0, []).
Proof. unfold validate_header. repeat case_match; simpl; intros; congruence || done. Qed.

(** C3, as stated: with the pair read in array order, like the
    [{0,1}] that [pack_pbp] writes, version {5,0} is [version[0] = 5],
    [version[1] = 0], and [validate_header] rejects it with -2.  Reading the
    pairs the other way round does not help: then {0,1} is [version[0] = 1],
    [version[1] = 0], which is rejected as well. *)
Lemma validate_header_5_0_rejected :
  (validate_header (sample_header x00 5 0 (replicate 8 40))).1 = -2
  /\ (validate_header (sample_header x00 1 0 (replicate 8 40))).1 = -2.
Proof. split; reflexivity. Qed.

(** C3, amended: for a header whose signature bytes 1..3 are 'P','B','P',
    whatever byte 0 is, [validate_header] returns 0 exactly when
    [version[1] = 1] or [version[0] = 0], and -2 otherwise.  In particular
    [version[0] = 0, version[1] = 1] is accepted for every signature byte 0,
    [version[0] = 0, version[1] = 5] is accepted, and the versions
    [{5,2}] and [{2,5}] are rejected with -2. *)
Theorem validate_header_accepts h :
  signature h !!! 1%nat = ch_P ->
  signature h !!! 2%nat = ch_B ->
  signature h !!! 3%nat = ch_P ->
  ((validate_header h).1 = 0 <-> version h !!! 1%nat = 1 \/ version h !!! 0%nat = 0)
  /\ ((validate_header h).1 <> 0 -> (validate_header h).1 = -2)
  /\ (forall s0 offs, (validate_header (sample_header s0 0 1 offs)).1 = 0)
  /\ (forall s0 offs, (validate_header (sample_header s0 0 5 offs)).1 = 0)
  /\ (forall s0 offs, (validate_header (sample_header s0 5 2 offs)).1 = -2)
  /\ (forall s0 offs, (validate_header (sample_header s0 2 5 offs)).1 = -2).
Proof.
  intros H1 H2 H3. unfold validate_header at 1 2 3. rewrite H1, H2, H3. cbn [Byte.eqb negb orb].
  replace (Byte.eqb ch_P ch_P) with true by reflexivity.
  replace (Byte.eqb ch_B ch_B) with true by reflexivity.
  cbn [negb orb].
  repeat split; try reflexivity.
  - destruct (version h !!! 1%nat =? 1) eqn:E1; destruct (version h !!! 0%nat =? 0) eqn:E0;
      cbn [negb andb fst]; intros; try discriminate; lia.
  - intros [Hv | Hv]; rewrite Hv; cbn [Z.eqb negb andb fst]; [done|].
    by rewrite andb_false_r.
  - destruct (version h !!! 1%nat =? 1); destruct (version h !!! 0%nat =? 0);
      cbn [negb andb fst]; congruence.
Qed.

Lemma validate_header_accepts_witness :
  (validate_header (sample_header xff 5 1 (replicate 8 40))).1 = 0.
Proof.
  apply (validate_header_accepts (sample_header xff 5 1 (replicate 8 40)));
    [reflexivity | reflexivity | reflexivity | left; reflexivity].
Defined.

(** ** Offset resolver *)

Lemma segment_size_range h file_len i : 0 <= segment_size h file_len i < 2 ^ 32.
Proof.
  unfold segment_size. repeat case_match; try apply to_uint32_range; lia.
Qed.

(** C2, as stated: on a file of 2^32 bytes whose last offset is 40 the
    file length exceeds [offsets[7]], yet the computed length of segment 7
    is 0, because [file_len] is narrowed to [uint32_t]; on a file of
    2^32 + 100 bytes the computed length is 60, not [file_length - 40]. *)
Lemma segment_size_last_wraps :
  let h := sample_header x00 0 1 (replicate 8 40) in
  segment_size h (2 ^ 32) 7 = 0
  /\ ~ (2 ^ 32 <= offset h !!! 7%nat)
  /\ segment_size h (2 ^ 32 + 100) 7 = 60
  /\ 2 ^ 32 + 100 - offset h !!! 7%nat <> 60.
Proof. cbv zeta. repeat split; try reflexivity; cbn; lia. Qed.

(** C2, amended: for every table of eight 32-bit offsets and every file
    length, the length [unpack_pbp] computes for segment [i] is what the
    resolver of the specification gives on the file length reduced modulo
    2^32: it is 0 exactly when [offsets[i+1] <= offsets[i]] for [i < 7], and
    exactly when [file_length mod 2^32 <= offsets[7]] for [i = 7]; otherwise
    it is [offsets[i+1] - offsets[i]], or
    [file_length mod 2^32 - offsets[7]] for [i = 7].  For a file shorter
    than 2^32 bytes this is the law with [file_length] itself. *)
Theorem segment_size_presence h file_len i :
  Forall (fun o => 0 <= o < 2 ^ 32) (offset h) ->
  0 <= file_len ->
  (i < 8)%nat ->
  segment_size h file_len i = resolver_length (offset h) (to_uint32 file_len) i
  /\ ((i < 7)%nat ->
      (segment_size h file_len i = 0 <-> offset h !!! (i + 1)%nat <= offset h !!! i)
      /\ (offset h !!! i < offset h !!! (i + 1)%nat ->
          segment_size h file_len i = offset h !!! (i + 1)%nat - offset h !!! i))
  /\ (i = 7%nat ->
      (segment_size h file_len i = 0 <-> to_uint32 file_len <= offset h !!! 7%nat)
      /\ (offset h !!! 7%nat < to_uint32 file_len ->
          segment_size h file_len i = to_uint32 file_len - offset h !!! 7%nat))
  /\ (file_len < 2 ^ 32 -> to_uint32 file_len = file_len).
Proof.
  intros Hr Hfl Hi.
  assert (Hoff : forall j, 0 <= offset h !!! j < 2 ^ 32).
  { intros j. destruct (offset h !! j) as [o|] eqn:E.
    - rewrite (list_lookup_total_correct _ _ _ E). eapply Forall_lookup_1 in Hr; eauto.
    - rewrite list_lookup_total_alt, E. simpl. lia. }
  pose proof (to_uint32_range file_len) as HL.
  pose proof (Hoff i) as Hi0. pose proof (Hoff (i + 1)%nat) as Hi1.
  unfold segment_size, resolver_length. rewrite !Z.gtb_ltb.
  destruct (Nat.ltb_spec (i + 1) 8) as [E1|E1]; destruct (Nat.ltb_spec i 7) as [E2|E2];
    try lia.
  - destruct (Z.ltb_spec (offset h !!! i) (offset h !!! (i + 1)%nat)) as [E3|E3];
      rewrite ?to_uint32_small by lia; repeat split; intros; try lia;
      rewrite ?to_uint32_small by lia; lia.
  - assert (i = 7%nat) as -> by lia.
    destruct (Z.ltb_spec (offset h !!! 7%nat) (to_uint32 file_len)) as [E3|E3];
      rewrite ?(to_uint32_small (to_uint32 file_len - _)) by lia;
      repeat split; intros; try lia; rewrite ?to_uint32_small by lia; lia.
Qed.

Lemma segment_size_presence_witness :
  segment_size (sample_header x00 0 1 [40; 50; 50; 50; 50; 50; 50; 60]) 100 7
  = resolver_length [40; 50; 50; 50; 50; 50; 50; 60] (to_uint32 100) 7.
Proof.
  refine (proj1 (segment_size_presence
                   (sample_header x00 0 1 [40; 50; 50; 50; 50; 50; 50; 60]) 100 7 _ _ _)).
  - cbn [offset sample_header]. repeat (apply Forall_cons; split; [lia|]). apply Forall_nil_2.
  - lia.
  - lia.
Defined.

(** ** The command line *)

Lemma main_pack env fs prog output p0 p1 p2 p3 p4 p5 p6 p7 :
  main env fs [prog; "pack"; output; p0; p1; p2; p3; p4; p5; p6; p7]%string
  = finish (pack_pbp env fs output [p0; p1; p2; p3; p4; p5; p6; p7]).
Proof. reflexivity. Qed.

Lemma main_unpack env fs prog input dir :
  main env fs [prog; "unpack"; input; dir]%string = finish (unpack_pbp env fs input dir).
Proof. reflexivity. Qed.

Lemma main_analyze env fs prog input :
  main env fs [prog; "analyze"; input]%string = finish (analyze_file fs input).
Proof. reflexivity. Qed.

(** ** The extraction loop *)

Lemma unpack_loop_cons env dir content h i rest st :
  unpack_loop env dir content h (i :: rest) st
  = unpack_loop env dir content h rest (unpack_segment env dir content h st i).
Proof. reflexivity. Qed.

Lemma unpack_loop_app env dir content h l1 l2 st :
  unpack_loop env dir content h (l1 ++ l2) st
  = unpack_loop env dir content h l2 (unpack_loop env dir content h l1 st).
Proof. unfold unpack_loop. apply foldl_app. Qed.

Lemma unpack_pbp_runs env fs input dir content h :
  fs !! input = Some content ->
  read_header content = Some h ->
  (validate_header h).1 = 0 ->
  mkdir_ok env dir = true ->
  unpack_pbp env fs input dir =
    let st := unpack_loop env dir content h (seq 0 8) (fs, []) in
    {| exited := None; files := st.1; stdout := []; stderr := st.2 |}.
Proof.
  intros Hin Hh Hv Hd. unfold unpack_pbp. rewrite Hin, Hh.
  rewrite (validate_header_ok_quiet h Hv). cbn [Z.eqb negb]. by rewrite Hd.
Qed.

Lemma unpack_segment_absent env dir content h st i :
  segment_size h (Z.of_nat (length content)) i = 0 ->
  unpack_segment env dir content h st i = st.
Proof. intros Hz. unfold unpack_segment. by rewrite Hz. Qed.




Lemma outpath_inj dir i j :
  (i < 8)%nat -> (j < 8)%nat -> outpath dir i = outpath dir j -> i = j.
Proof.
  intros Hi Hj Heq. unfold outpath in Heq.
  apply (inj (String.app dir)) in Heq. apply (inj (String.app "/")) in Heq.
  do 8 (destruct i as [|i]; [do 8 (destruct j as [|j]; [done || discriminate Heq|]); lia|]).
  lia.
Qed.

Lemma unpack_segment_other env dir content h st i p :
  p <> outpath dir i ->
  (unpack_segment env dir content h st i).1 !! p = st.1 !! p.
Proof.
  intros Hp. unfold unpack_segment. repeat case_match; cbn [fst]; try done.
  by rewrite lookup_insert_ne.
Qed.

Lemma unpack_loop_other env dir content h p idx :
  forall st, (forall j, j ∈ idx -> p <> outpath dir j) ->
  (unpack_loop env dir content h idx st).1 !! p = st.1 !! p.
Proof.
  induction idx as [|i idx IH]; intros st Hp; [done|].
  rewrite unpack_loop_cons, IH.
  - apply unpack_segment_other, Hp. set_solver.
  - intros j Hj. apply Hp. set_solver.
Qed.

Lemma unpack_segment_stderr env dir content h st i e :
  e ∈ (unpack_segment env dir content h st i).2 ->
  e ∈ st.2 \/ e = ErrSkipping (default_file_names !!! i)
  \/ e = ErrFailedCreate (outpath dir i).
Proof.
  unfold unpack_segment. repeat case_match; cbn [snd]; auto;
    rewrite elem_of_app, list_elem_of_singleton; tauto.
Qed.

Lemma unpack_loop_no_skip env dir content h name idx :
  forall st, (forall j, j ∈ idx -> default_file_names !!! j <> name) ->
  ErrSkipping name ∉ st.2 ->
  ErrSkipping name ∉ (unpack_loop env dir content h idx st).2.
Proof.
  induction idx as [|i idx IH]; intros st Hn Hst; [done|].
  rewrite unpack_loop_cons. apply IH.
  - intros j Hj. apply Hn. set_solver.
  - intros He. apply unpack_segment_stderr in He as [He | [He | He]].
    + done.
    + injection He as He. apply (Hn i); [set_solver | done].
    + discriminate He.
Qed.

(** What a segment with a good range leaves in the output directory. *)
Lemma unpack_segment_writes env dir content h st i :
  let file_len := Z.of_nat (length content) in
  let size := segment_size h file_len i in
  let corrected := offset h !!! i - 40 in
  0 < size -> 0 <= corrected -> corrected + size <= file_len ->
  can_create env (outpath dir i) = true ->
  (unpack_segment env dir content h st i).1 !! outpath dir i
  = Some (take (Z.to_nat size) (drop (Z.to_nat corrected) content)).
Proof.
  cbv zeta. intros Hpos Hc Hfit Hcr. unfold unpack_segment, sizeof_PBPHeader.
  destruct (Z.eqb_spec (segment_size h (Z.of_nat (length content)) i) 0) as [E|_]; [lia|].
  destruct (Z.ltb_spec (offset h !!! i - 40) 0) as [E|_]; [lia|].
  rewrite Z.gtb_ltb.
  destruct (Z.ltb_spec (Z.of_nat (length content))
              (offset h !!! i - 40 + segment_size h (Z.of_nat (length content)) i))
    as [E|_]; [lia|].
  cbn [orb]. rewrite Hcr. cbn [fst]. by rewrite lookup_insert_eq.
Qed.

(** C6, as stated: the 48-byte container of eight one-byte segments, cut
    to 46 bytes, has [file_length = 46 < 47 = offsets[7]]; [unpack] on it
    exits with 0 and prints nothing on [stderr], so segment 7 is skipped
    without a diagnostic.  Cut to 39 bytes, [file_length < offsets[7]] still
    holds and [unpack] exits with 1. *)
Lemma unpack_truncated_no_diagnostic :
  let r := main env_ok fs_truncated ["pbptool"; "unpack"; "t.pbp"; "out"]%string in
  (offset <$> read_header truncated_eight) = Some [40; 41; 42; 43; 44; 45; 46; 47]
  /\ Z.of_nat (length truncated_eight) = 46
  /\ exited r = Some 0
  /\ stderr r = []
  /\ exited (main env_ok fs_headless ["pbptool"; "unpack"; "t.pbp"; "out"]%string) = Some 1.
Proof. cbv zeta. repeat split; vm_compute; reflexivity. Qed.

(** C6, amended: let a file of at least 40 bytes hold a header that
    passes validation, and let its length be below [offsets[7]].  Then
    [unpack], once the output directory is there, skips segment 7 silently:
    no file is written for it and no "Skipping DATA.PSAR" line is printed.
    Every earlier segment of nonzero computed length that passes the range
    guard of the loop, and whose output file can be created, gets a file of
    exactly its computed length, and the exit code is 0. *)
Theorem unpack_truncated env fs prog input dir content h :
  fs !! input = Some content ->
  read_header content = Some h ->
  (validate_header h).1 = 0 ->
  mkdir_ok env dir = true ->
  Z.of_nat (length content) < offset h !!! 7%nat ->
  let r := main env fs [prog; "unpack"; input; dir]%string in
  let file_len := Z.of_nat (length content) in
  exited r = Some 0
  /\ files r !! outpath dir 7 = fs !! outpath dir 7
  /\ (ErrSkipping "DATA.PSAR" ∉ stderr r)
  /\ (forall i, (i < 7)%nat ->
        0 < segment_size h file_len i ->
        0 <= offset h !!! i - 40 ->
        offset h !!! i - 40 + segment_size h file_len i <= file_len ->
        can_create env (outpath dir i) = true ->
        exists bytes,
          files r !! outpath dir i = Some bytes
          /\ Z.of_nat (length bytes) = segment_size h file_len i).
Proof.
  intros Hin Hh Hv Hd Hlen. cbv zeta.
  rewrite main_unpack, (unpack_pbp_runs _ _ _ _ _ _ Hin Hh Hv Hd).
  cbv zeta. unfold finish. cbn [exited files stderr stdout].
  assert (H7 : forall st, unpack_segment env dir content h st 7 = st).
  { intros st. apply unpack_segment_absent.
    unfold segment_size. cbn [Nat.add Nat.ltb Nat.leb].
    pose proof (header_wf_offset h 7 (read_header_wf _ _ Hh)) as Ho.
    rewrite (to_uint32_small (Z.of_nat (length content))) by lia.
    rewrite Z.gtb_ltb. by destruct (Z.ltb_spec (offset h !!! 7%nat) (Z.of_nat (length content)));
      [lia|]. }
  change (seq 0 8) with (seq 0 7 ++ [7%nat]).
  rewrite unpack_loop_app, unpack_loop_cons, H7. cbn [unpack_loop foldl].
  fold (unpack_loop env dir content h (seq 0 7) (fs, [])).
  repeat split.
  - rewrite unpack_loop_other; [done|].
    intros j Hj Heq. apply elem_of_seq in Hj. apply outpath_inj in Heq; lia.
  - apply unpack_loop_no_skip; [|cbn; set_solver].
    intros j Hj. apply elem_of_seq in Hj.
    do 7 (destruct j as [|j]; [discriminate|]). lia.
  - intros i Hi Hpos Hc Hfit Hcr.
    replace (seq 0 7) with (seq 0 i ++ i :: seq (S i) (6 - i)).
    2:{ change (i :: seq (S i) (6 - i)) with (seq i (S (6 - i))).
        rewrite <- (Nat.add_0_l i) at 2. rewrite <- seq_app. f_equal. lia. }
    rewrite unpack_loop_app, unpack_loop_cons, unpack_loop_other.
    + rewrite unpack_segment_writes by done. eexists. split; [done|].
      rewrite length_take, length_drop. lia.
    + intros j Hj Heq. apply elem_of_seq in Hj. apply outpath_inj in Heq; lia.
Qed.

Lemma unpack_truncated_witness :
  exited (main env_ok fs_truncated ["pbptool"; "unpack"; "t.pbp"; "out"]%string) = Some 0.
Proof.
  refine (proj1 (unpack_truncated env_ok fs_truncated "pbptool" "t.pbp" "out" truncated_eight
            (default zero_header (read_header truncated_eight)) _ _ _ _ _)).
  - reflexivity.
  - vm_compute. reflexivity.
  - vm_compute. reflexivity.
  - reflexivity.
  - vm_compute. reflexivity.
Defined.

(** ** The loading loop of [pack_pbp] *)

Lemma pack_slot_null fs inputs st i :
  is_null (inputs !!! i) = true ->
  pack_slot fs inputs st i
  = inr {| header := set_offset (header st) i (curr_offset st);
           contents := <[i := None]> (contents st);
           sizes := <[i := 0]> (sizes st);
           curr_offset := curr_offset st |}.
Proof. intros Hn. unfold pack_slot. unfold is_null in Hn. by rewrite Hn. Qed.

Lemma pack_slot_unreadable fs inputs st i :
  unreadable fs (inputs !!! i) = true ->
  pack_slot fs inputs st i = inl (ErrFailedReadInput (inputs !!! i)).
Proof.
  unfold unreadable, is_null, pack_slot, read_file_to_buffer. intros Hu.
  apply andb_true_iff in Hu as [Hn Hr]. apply negb_true_iff in Hn, Hr. rewrite Hn.
  destruct (fs !! (inputs !!! i)) eqn:E; [|done].
  apply bool_decide_eq_false in Hr. destruct Hr. by eexists.
Qed.

Lemma pack_slot_read fs inputs st i :
  unreadable fs (inputs !!! i) = false ->
  pack_slot fs inputs st i
  = inr {| header := set_offset (header st) i (curr_offset st);
           contents := <[i := slot_buf fs (inputs !!! i)]> (contents st);
           sizes := <[i := slot_len fs (inputs !!! i)]> (sizes st);
           curr_offset := next_offset fs (curr_offset st) (inputs !!! i) |}.
Proof.
  unfold unreadable, slot_buf, slot_len, next_offset. intros Hu.
  destruct (is_null (inputs !!! i)) eqn:Hn; [by apply pack_slot_null|].
  unfold pack_slot, read_file_to_buffer. unfold is_null in Hn. rewrite Hn.
  cbn [negb andb] in Hu. apply negb_false_iff, bool_decide_eq_true in Hu as [buf Hbuf].
  unfold slot_len, is_null. rewrite Hn, Hbuf. reflexivity.
Qed.

(** The loading loop run over the slots [post], the slots [pre] being done. *)
Lemma pack_load_gen fs post :
  forall pre st,
  length (offset (header st)) = length (pre ++ post) ->
  length (contents st) = length (pre ++ post) ->
  length (sizes st) = length (pre ++ post) ->
  pack_load fs (pre ++ post) (seq (length pre) (length post)) st =
  match first_unreadable fs post with
  | Some p => inl (ErrFailedReadInput p)
  | None =>
    inr {| header :=
             {| signature := signature (header st); version := version (header st);
                offset := take (length pre) (offset (header st))
                          ++ offsets_from fs (curr_offset st) post |};
           contents := take (length pre) (contents st) ++ map (slot_buf fs) post;
           sizes := take (length pre) (sizes st) ++ map (slot_len fs) post;
           curr_offset := cursor_after fs (curr_offset st) post |}
  end.
Proof.
  induction post as [|p post IH]; intros pre st Ho Hc Hs.
  - rewrite app_nil_r in *. cbn [length seq pack_load first_unreadable List.find
      offsets_from map cursor_after foldl].
    rewrite !app_nil_r, !take_ge by lia. by destruct st as [[? ? ?] ? ? ?].
  - cbn [length seq pack_load first_unreadable List.find].
    assert (Hp : (pre ++ p :: post) !!! length pre = p) by apply list_lookup_total_middle, eq_refl.
    destruct (unreadable fs p) eqn:Hu.
    + rewrite pack_slot_unreadable by (by rewrite Hp). by rewrite Hp.
    + rewrite pack_slot_read by (by rewrite Hp). rewrite Hp.
      replace (pre ++ p :: post) with ((pre ++ [p]) ++ post) by (by rewrite <- app_assoc).
      replace (S (length pre)) with (length (pre ++ [p])) by (rewrite length_app; simpl; lia).
      rewrite IH; cbn [header contents sizes curr_offset set_offset offset signature version];
        rewrite ?length_insert, <- ?app_assoc; try done.
      fold (first_unreadable fs post). destruct (first_unreadable fs post); [done|].
      assert (Hk : forall {A} (l : list A) (x : A), length l = length (pre ++ p :: post) ->
                take (length (pre ++ [p])) (<[length pre := x]> l) = take (length pre) l ++ [x]).
      { intros A l x Hl. rewrite length_app in *. cbn [length] in *.
        replace (length pre + 1)%nat with (S (length pre)) by lia.
        rewrite (take_S_r _ _ x), take_insert_ge by
          (try lia; apply list_lookup_insert_eq; lia). done. }
      rewrite !Hk by done. rewrite <- !app_assoc. reflexivity.
Qed.

Lemma pack_load_closed fs inputs :
  length inputs = 8%nat ->
  pack_load fs inputs (seq 0 8) pack_init =
  match first_unreadable fs inputs with
  | Some p => inl (ErrFailedReadInput p)
  | None =>
    inr {| header := {| signature := [x00; ch_P; ch_B; ch_P]; version := [0; 1];
                        offset := offsets_from fs 40 inputs |};
           contents := map (slot_buf fs) inputs;
           sizes := map (slot_len fs) inputs;
           curr_offset := cursor_after fs 40 inputs |}
  end.
Proof.
  intros Hlen. pose proof (pack_load_gen fs inputs [] pack_init) as H.
  cbn [app length] in H. rewrite Hlen in H. rewrite H by reflexivity.
  destruct (first_unreadable fs inputs); reflexivity.
Qed.

Lemma first_unreadable_none fs inputs p :
  first_unreadable fs inputs = None -> p ∈ inputs -> unreadable fs p = false.
Proof.
  intros Hf Hp. apply list_elem_of_In in Hp.
  exact (List.find_none _ _ Hf _ Hp).
Qed.

Lemma unreadable_false fs p :
  unreadable fs p = false ->
  is_null p = true \/ (is_null p = false /\ exists buf, fs !! p = Some buf).
Proof.
  unfold unreadable. destruct (is_null p); [auto|]. cbn [negb andb].
  intros H. apply negb_false_iff, bool_decide_eq_true in H. auto.
Qed.

Lemma slot_len_nonneg fs p : 0 <= slot_len fs p.
Proof. unfold slot_len. destruct (is_null p); lia. Qed.

(** The bytes the writing loop emits for one slot. *)
Lemma pack_body_slot fs p :
  (if slot_len fs p =? 0 then []
   else take (Z.to_nat (slot_len fs p)) (default [] (slot_buf fs p)))
  = source_bytes fs p.
Proof.
  unfold source_bytes, slot_len, slot_buf. destruct (is_null p); [done|].
  destruct (Z.eqb_spec (Z.of_nat (length (default [] (fs !! p)))) 0) as [E|E].
  - destruct (default [] (fs !! p)); [done | discriminate E].
  - rewrite Nat2Z.id. by rewrite take_ge.
Qed.

Lemma pack_body_closed fs inputs hdr c :
  length inputs = 8%nat ->
  pack_body {| header := hdr; contents := map (slot_buf fs) inputs;
               sizes := map (slot_len fs) inputs; curr_offset := c |}
  = flat_map (source_bytes fs) inputs.
Proof.
  intros Hlen.
  do 9 (destruct inputs as [|? inputs]; try discriminate Hlen).
  unfold pack_body.
  cbn [seq flat_map map sizes contents lookup_total list_lookup_total].
  rewrite !pack_body_slot. reflexivity.
Qed.

Lemma pack_pbp_closed env fs output inputs :
  length inputs = 8%nat ->
  pack_pbp env fs output inputs =
  match first_unreadable fs inputs with
  | Some p => die fs [ErrFailedReadInput p]
  | None =>
    if negb (can_create env output) then die fs [ErrFailedCreateOutput output]
    else
      {| exited := None;
         files := <[output :=
                      header_bytes {| signature := [x00; ch_P; ch_B; ch_P]; version := [0; 1];
                                      offset := offsets_from fs 40 inputs |}
                      ++ flat_map (source_bytes fs) inputs]> fs;
         stdout := []; stderr := [] |}
  end.
Proof.
  intros Hlen. unfold pack_pbp. rewrite pack_load_closed by done.
  destruct (first_unreadable fs inputs); [done|].
  destruct (can_create env output); [|done]. cbn [negb header].
  by rewrite pack_body_closed.
Qed.

Lemma pack_header_closed fs inputs :
  length inputs = 8%nat ->
  pack_header fs inputs =
  match first_unreadable fs inputs with
  | Some _ => None
  | None => Some {| signature := [x00; ch_P; ch_B; ch_P]; version := [0; 1];
                    offset := offsets_from fs 40 inputs |}
  end.
Proof.
  intros Hlen. unfold pack_header. rewrite pack_load_closed by done.
  by destruct (first_unreadable fs inputs).
Qed.

Lemma main_pack_list env fs prog output inputs :
  length inputs = 8%nat ->
  main env fs ([prog; "pack"; output]%string ++ inputs)
  = finish (pack_pbp env fs output inputs).
Proof.
  intros Hlen. do 9 (destruct inputs as [|? inputs]; try discriminate Hlen).
  reflexivity.
Qed.

(** C5: when some source argument of [pack] is not "NULL" and cannot be
    read, the run ends with exit code 1 after one "Failed to read input
    file" line, and the file system, the destination path included, is
    exactly what it was: nothing was created or written. *)
Theorem pack_unreadable_source env fs prog output inputs i path :
  length inputs = 8%nat ->
  inputs !! i = Some path ->
  path <> "NULL"%string ->
  fs !! path = None ->
  let r := main env fs ([prog; "pack"; output]%string ++ inputs) in
  exited r = Some 1
  /\ files r = fs
  /\ stdout r = []
  /\ exists p, stderr r = [ErrFailedReadInput p].
Proof.
  intros Hlen Hi Hnn Hfs. cbv zeta.
  rewrite main_pack_list, pack_pbp_closed by done.
  destruct (first_unreadable fs inputs) as [p|] eqn:Hf.
  - cbn. eauto.
  - exfalso. assert (Hu : unreadable fs path = false).
    { eapply first_unreadable_none; [done|]. by eapply list_elem_of_lookup_2. }
    apply unreadable_false in Hu as [Hn | (_ & buf & Hbuf)].
    + apply Hnn. unfold is_null in Hn. by apply String.eqb_eq.
    + congruence.
Qed.

Lemma pack_unreadable_source_witness :
  files (main env_ok fs_scenario
           (["pbptool"; "pack"; "out.pbp"]%string
            ++ ["a.sfo"; "NULL"; "missing.png"; "NULL"; "NULL"; "NULL"; "NULL"; "data.bin"]%string))
  = fs_scenario.
Proof.
  refine (proj1 (proj2 (pack_unreadable_source env_ok fs_scenario "pbptool" "out.pbp"
            ["a.sfo"; "NULL"; "missing.png"; "NULL"; "NULL"; "NULL"; "NULL"; "data.bin"]%string
            2 "missing.png" _ _ _ _))).
  - reflexivity.
  - reflexivity.
  - discriminate.
  - vm_compute. reflexivity.
Defined.

(** ** The offsets [pack_pbp] records *)

Lemma length_offsets_from fs ps : forall c, length (offsets_from fs c ps) = length ps.
Proof. induction ps as [|p ps IH]; intros c; simpl; [done | by rewrite IH]. Qed.

Lemma next_offset_range fs c p : 0 <= c < 2 ^ 32 -> 0 <= next_offset fs c p < 2 ^ 32.
Proof. intros Hc. unfold next_offset. destruct (is_null p); [done | apply to_uint32_range]. Qed.

Lemma offsets_from_range fs ps :
  forall c, 0 <= c < 2 ^ 32 -> Forall (fun o => 0 <= o < 2 ^ 32) (offsets_from fs c ps).
Proof.
  induction ps as [|p ps IH]; intros c Hc; simpl; [apply Forall_nil_2|].
  apply Forall_cons. split; [done|]. by apply IH, next_offset_range.
Qed.

Lemma sources_size_app fs l1 l2 :
  sources_size fs (l1 ++ l2) = sources_size fs l1 + sources_size fs l2.
Proof. unfold sources_size. induction l1 as [|p l1 IH]; simpl; [done | rewrite IH; lia]. Qed.

Lemma sources_size_nonneg fs l : 0 <= sources_size fs l.
Proof.
  unfold sources_size. induction l as [|p l IH]; simpl; [done|].
  pose proof (slot_len_nonneg fs p). lia.
Qed.

Lemma sources_size_take_le fs l i : sources_size fs (take i l) <= sources_size fs l.
Proof.
  rewrite <- (take_drop i l) at 2. rewrite sources_size_app.
  pose proof (sources_size_nonneg fs (drop i l)). lia.
Qed.

Lemma sources_size_take_S fs l i p :
  l !! i = Some p ->
  sources_size fs (take (S i) l) = sources_size fs (take i l) + slot_len fs p.
Proof.
  intros Hp. rewrite (take_S_r _ _ _ Hp), sources_size_app. unfold sources_size. simpl. lia.
Qed.

Lemma next_offset_sum fs c p :
  to_uint32 c = c -> next_offset fs c p = to_uint32 (c + slot_len fs p).
Proof.
  intros Hc. unfold next_offset, slot_len. destruct (is_null p).
  - by rewrite Z.add_0_r.
  - apply to_uint32_add_r.
Qed.

(** The recorded offset of slot [i] is the header size plus the lengths of
    the sources before it, in 32-bit arithmetic. *)
Lemma offsets_from_lookup fs ps :
  forall c i, 0 <= c < 2 ^ 32 -> (i < length ps)%nat ->
  offsets_from fs c ps !!! i = to_uint32 (c + sources_size fs (take i ps)).
Proof.
  induction ps as [|p ps IH]; intros c i Hc Hi; [simpl in Hi; lia|].
  destruct i as [|i].
  - cbn. rewrite Z.add_0_r. symmetry. by apply to_uint32_small.
  - cbn [offsets_from take]. change ((c :: ?l) !!! S i) with (l !!! i).
    rewrite IH by (try apply next_offset_range; simpl in Hi; lia || done).
    rewrite next_offset_sum by (by apply to_uint32_small).
    rewrite to_uint32_add_l. f_equal. unfold sources_size. simpl. lia.
Qed.

(** C9, as stated: a single source of 2^32 - 40 bytes in slot 0 and
    "NULL" elsewhere makes [pack] succeed with the offsets
    [{40, 0, 0, 0, 0, 0, 0, 0}]: the cursor wrapped around in [uint32_t],
    and the stored offsets decrease. *)
Lemma pack_header_wraps :
  exited (pack_pbp env_ok fs_big "out.pbp" big_inputs) = None
  /\ (offset <$> pack_header fs_big big_inputs) = Some [40; 0; 0; 0; 0; 0; 0; 0].
Proof.
  assert (Hlen : Z.of_nat (length big_file) = 2 ^ 32 - 40).
  { unfold big_file. rewrite length_replicate. apply Z2Nat.id. lia. }
  assert (Hbig : fs_big !! "big.bin"%string = Some big_file) by apply lookup_singleton_eq.
  generalize dependent big_file. generalize fs_big. intros fs buf Hlen Hbuf.
  assert (Hf : first_unreadable fs big_inputs = None).
  { unfold first_unreadable, big_inputs. cbn [List.find].
    unfold unreadable at 1. rewrite Hbuf. reflexivity. }
  split.
  - rewrite pack_pbp_closed by reflexivity. by rewrite Hf.
  - rewrite pack_header_closed by reflexivity. rewrite Hf. cbn [fmap option_fmap option_map offset].
    unfold big_inputs. cbn [offsets_from].
    assert (Hn : forall c, next_offset fs c "NULL" = c) by reflexivity.
    assert (Hb : next_offset fs 40 "big.bin" = 0).
    { unfold next_offset, slot_len. change (is_null "big.bin") with false. cbv iota.
      rewrite Hbuf. cbn [default from_option id]. rewrite Hlen. reflexivity. }
    rewrite !Hn, Hb. reflexivity.
Qed.

Lemma pack_header_some fs inputs h :
  length inputs = 8%nat ->
  pack_header fs inputs = Some h ->
  first_unreadable fs inputs = None
  /\ h = {| signature := [x00; ch_P; ch_B; ch_P]; version := [0; 1];
            offset := offsets_from fs 40 inputs |}.
Proof.
  intros Hlen. rewrite pack_header_closed by done.
  destruct (first_unreadable fs inputs); [discriminate|]. by intros [= <-].
Qed.

Lemma packed_header_wf fs inputs :
  length inputs = 8%nat ->
  header_wf {| signature := [x00; ch_P; ch_B; ch_P]; version := [0; 1];
               offset := offsets_from fs 40 inputs |}.
Proof.
  intros Hlen. split; cbn [signature version offset]; try reflexivity.
  - by rewrite length_offsets_from.
  - repeat (apply Forall_cons; split; [lia|]). apply Forall_nil_2.
  - apply offsets_from_range. lia.
Qed.

(** C9, amended: the header of every successful [pack] has signature
    [0,'P','B','P'] and version [{0,1}], passes [validate_header], and is
    read back unchanged from the file; its first offset is 40; offset [i] is
    40 plus the lengths of the sources before slot [i], reduced modulo 2^32;
    the offset of a "NULL" slot equals the offset of every later slot up to
    and including the next slot that is not "NULL".  When 40 plus the total
    length of the sources is below 2^32, the offsets are those sums
    themselves and are non-decreasing. *)
Theorem pack_header_invariant fs inputs h :
  length inputs = 8%nat ->
  pack_header fs inputs = Some h ->
  header_wf h
  /\ validate_header h = (0, [])
  /\ signature h = [x00; ch_P; ch_B; ch_P]
  /\ version h = [0; 1]
  /\ (forall body, read_header (header_bytes h ++ body) = Some h)
  /\ offset h !!! 0%nat = 40
  /\ (forall i, (i < 8)%nat ->
        offset h !!! i = to_uint32 (40 + sources_size fs (take i inputs)))
  /\ (forall i j, (i <= j < 8)%nat ->
        (forall k, (i <= k < j)%nat -> inputs !!! k = "NULL"%string) ->
        offset h !!! j = offset h !!! i)
  /\ (40 + sources_size fs inputs < 2 ^ 32 ->
      (forall i, (i < 8)%nat -> offset h !!! i = 40 + sources_size fs (take i inputs))
      /\ (forall i, (i < 7)%nat -> offset h !!! i <= offset h !!! (i + 1)%nat)).
Proof.
  intros Hlen Hh. apply pack_header_some in Hh as [Hf ->]; [|done].
  pose proof (packed_header_wf fs inputs Hlen) as Hwf.
  assert (Hoff : forall i, (i < 8)%nat ->
            offsets_from fs 40 inputs !!! i = to_uint32 (40 + sources_size fs (take i inputs))).
  { intros i Hi. apply offsets_from_lookup; lia. }
  assert (Hstep : forall k, (k < 8)%nat ->
            sources_size fs (take (S k) inputs)
            = sources_size fs (take k inputs) + slot_len fs (inputs !!! k)).
  { intros k Hk. apply sources_size_take_S, list_lookup_lookup_total_lt. lia. }
  cbn [signature version offset].
  split; [exact Hwf|]. split; [reflexivity|]. split; [reflexivity|]. split; [reflexivity|].
  split; [|split; [|split; [exact Hoff|split; [|intros Hfit; split]]]].
  - intros body. by apply read_header_bytes.
  - rewrite Hoff by lia. reflexivity.
  - intros i j [Hij Hj] Hnull. induction j as [|j IH]; [by replace i with 0%nat by lia|].
    destruct (decide (i = S j)) as [->|Hne]; [done|].
    rewrite <- IH by (try lia; intros k Hk; apply Hnull; lia).
    rewrite !Hoff, Hstep by lia. f_equal.
    rewrite (Hnull j) by lia. unfold slot_len. change (is_null "NULL") with true. cbv iota. lia.
  - intros i Hi. rewrite Hoff by done. apply to_uint32_small.
    pose proof (sources_size_nonneg fs (take i inputs)).
    pose proof (sources_size_take_le fs inputs i). lia.
  - intros i Hi.
    pose proof (sources_size_nonneg fs (take i inputs)).
    pose proof (sources_size_take_le fs inputs (S i)).
    pose proof (slot_len_nonneg fs (inputs !!! i)).
    rewrite !Hoff by lia. replace (i + 1)%nat with (S i) by lia. rewrite Hstep by lia.
    rewrite Hstep in * by lia.
    rewrite !to_uint32_small by lia. lia.
Qed.

Lemma pack_header_invariant_witness :
  (validate_header
     (default zero_header (pack_header fs_scenario scenario_inputs))) = (0, []).
Proof.
  refine (proj1 (proj2 (pack_header_invariant fs_scenario scenario_inputs
            (default zero_header (pack_header fs_scenario scenario_inputs)) _ _))).
  - reflexivity.
  - vm_compute. reflexivity.
Defined.

(** ** The container [pack_pbp] writes *)

Lemma length_source_bytes fs p : Z.of_nat (length (source_bytes fs p)) = slot_len fs p.
Proof. unfold source_bytes, slot_len, slot_buf. by destruct (is_null p). Qed.

Lemma length_flat_map_source_bytes fs ps :
  Z.of_nat (length (flat_map (source_bytes fs) ps)) = sources_size fs ps.
Proof.
  unfold sources_size. induction ps as [|p ps IH]; [done|].
  cbn [flat_map foldr]. rewrite length_app, Nat2Z.inj_add, IH, length_source_bytes. lia.
Qed.

Lemma first_unreadable_none_iff fs inputs :
  first_unreadable fs inputs = None
  <-> (forall p, p ∈ inputs -> p <> "NULL"%string -> is_Some (fs !! p)).
Proof.
  split.
  - intros Hf p Hp Hnn. apply (first_unreadable_none _ _ _ Hf), unreadable_false in Hp.
    destruct Hp as [Hn | (_ & buf & Hbuf)]; [|by eexists].
    destruct Hnn. by apply String.eqb_eq.
  - intros Hall. unfold first_unreadable.
    destruct (List.find (unreadable fs) inputs) as [p|] eqn:E; [|done].
    apply List.find_some in E as [Hin Hu]. apply list_elem_of_In in Hin.
    unfold unreadable in Hu. apply andb_true_iff in Hu as [Hn Hr].
    apply negb_true_iff in Hn, Hr. apply bool_decide_eq_false in Hr. destruct Hr.
    apply Hall; [done|]. intros ->. discriminate Hn.
Qed.

(** C10: [pack] succeeds exactly when every source that is not "NULL"
    can be read and the destination can be created.  The destination then
    holds the 40 header bytes followed by the bytes of the sources in slot
    order, a "NULL" slot contributing nothing, with nothing in between: its
    length is 40 plus the sum of the lengths of the sources that are not
    "NULL".  No other file changes. *)
Theorem pack_container env fs prog output inputs :
  length inputs = 8%nat ->
  let r := main env fs ([prog; "pack"; output]%string ++ inputs) in
  (exited r = Some 0 <->
     (forall p, p ∈ inputs -> p <> "NULL"%string -> is_Some (fs !! p))
     /\ can_create env output = true)
  /\ (exited r = Some 0 ->
      exists h,
        pack_header fs inputs = Some h
        /\ length (header_bytes h) = 40%nat
        /\ files r !! output = Some (header_bytes h ++ flat_map (source_bytes fs) inputs)
        /\ Z.of_nat (length (header_bytes h ++ flat_map (source_bytes fs) inputs))
           = 40 + sources_size fs inputs
        /\ (forall p, p ∈ inputs -> p <> "NULL"%string ->
              fs !! p = Some (source_bytes fs p)
              /\ slot_len fs p = Z.of_nat (length (source_bytes fs p)))
        /\ source_bytes fs "NULL" = [] /\ slot_len fs "NULL" = 0
        /\ (forall p, p <> output -> files r !! p = fs !! p)).
Proof.
  intros Hlen. cbv zeta. rewrite main_pack_list, pack_pbp_closed by done.
  rewrite <- first_unreadable_none_iff.
  destruct (first_unreadable fs inputs) as [q|] eqn:Hf.
  { split; [split|]; cbn; intros; try discriminate. by destruct H. }
  destruct (can_create env output) eqn:Hc; cbn [negb].
  2:{ split; [split|]; cbn; intros; try discriminate. by destruct H. }
  unfold finish. cbn [exited files stdout stderr].
  split; [done|]. intros _.
  eexists. split; [by rewrite pack_header_closed, Hf|].
  pose proof (length_header_bytes _ (packed_header_wf fs inputs Hlen)) as H40.
  split; [done|]. split; [by rewrite lookup_insert_eq|].
  split; [rewrite length_app, Nat2Z.inj_add, H40, length_flat_map_source_bytes; lia|].
  split; [|split; [done|split; [done|]]].
  - intros p Hp Hnn. rewrite length_source_bytes. split; [|done].
    apply (first_unreadable_none _ _ _ Hf), unreadable_false in Hp.
    destruct Hp as [Hn | (Hn & buf & Hbuf)].
    + destruct Hnn. by apply String.eqb_eq.
    + unfold source_bytes, slot_buf. by rewrite Hn, Hbuf.
  - intros p Hp. by rewrite lookup_insert_ne.
Qed.

Lemma pack_container_witness :
  exited (main env_ok fs_scenario (["pbptool"; "pack"; "out.bin"]%string ++ scenario_inputs))
  = Some 0.
Proof.
  refine (proj2 (proj1 (pack_container env_ok fs_scenario "pbptool" "out.bin"
                          scenario_inputs _)) _).
  - reflexivity.
  - split; [|reflexivity]. intros p Hp Hnn.
    apply list_elem_of_In in Hp. cbn in Hp.
    repeat (destruct Hp as [<- | Hp]; [first [by destruct Hnn | by vm_compute; eexists]|]).
    destruct Hp.
Defined.

Lemma pack_all_null_bytes fs :
  header_bytes {| signature := [x00; ch_P; ch_B; ch_P]; version := [0; 1];
                  offset := offsets_from fs 40 all_null |}
  ++ flat_map (source_bytes fs) all_null
  = header_bytes null_header.
Proof. reflexivity. Qed.

(** C8: [pack] with "NULL" in all eight slots, the destination being
    creatable, exits with 0 and leaves a destination file of exactly 40
    bytes; [analyze] on that file exits with 0 and prints "NULL" for each of
    the eight segments. *)
Theorem pack_all_null env fs prog output :
  can_create env output = true ->
  let r := main env fs ([prog; "pack"; output]%string ++ all_null) in
  let a := main env (files r) [prog; "analyze"; output]%string in
  exited r = Some 0
  /\ (exists bytes, files r !! output = Some bytes /\ length bytes = 40%nat)
  /\ exited a = Some 0
  /\ stdout a
     = [OutHeaderTitle; OutSignature x00 ch_P ch_B ch_P; OutVersion 1 0; OutOffsetsTitle]
       ++ map (fun name => OutSegment name None) default_file_names.
Proof.
  intros Hc. cbv zeta. rewrite main_pack_list, pack_pbp_closed by reflexivity.
  replace (first_unreadable fs all_null) with (@None string) by reflexivity.
  rewrite Hc. cbn [negb]. rewrite pack_all_null_bytes.
  unfold finish at 1 2 3 4. cbn [exited files stdout stderr].
  rewrite main_analyze. unfold analyze_file. rewrite lookup_insert_eq.
  replace (read_header (header_bytes null_header)) with (Some null_header) by reflexivity.
  split; [done|]. split; [by eexists|]. split; reflexivity.
Qed.

Lemma pack_all_null_witness :
  exited (main env_ok fs_scenario (["pbptool"; "pack"; "empty.pbp"]%string ++ all_null)) = Some 0.
Proof.
  refine (proj1 (pack_all_null env_ok fs_scenario "pbptool" "empty.pbp" _)).
  reflexivity.
Defined.

(** The offsets of the scenario of C4, for any two readable sources. *)
Lemma pack_scenario_offsets fs a d bufa bufd :
  a <> "NULL"%string -> d <> "NULL"%string ->
  fs !! a = Some bufa -> fs !! d = Some bufd ->
  let next := to_uint32 (40 + to_uint32 (Z.of_nat (length bufa))) in
  (offset <$> pack_header fs [a; "NULL"; "NULL"; "NULL"; "NULL"; "NULL"; "NULL"; d]%string)
  = Some [40; next; next; next; next; next; next; next].
Proof.
  intros Ha Hd Hfa Hfd. cbv zeta.
  assert (Hna : is_null a = false) by (by apply String.eqb_neq).
  assert (Hnd : is_null d = false) by (by apply String.eqb_neq).
  rewrite pack_header_closed by reflexivity.
  assert (Hf : first_unreadable fs [a; "NULL"; "NULL"; "NULL"; "NULL"; "NULL"; "NULL"; d]%string
               = None).
  { apply first_unreadable_none_iff. intros p Hp Hnn.
    apply list_elem_of_In in Hp. cbn in Hp.
    repeat (destruct Hp as [<- | Hp]; [first [by destruct Hnn | by eexists]|]).
    destruct Hp. }
  rewrite Hf. cbn [fmap option_fmap option_map offset offsets_from].
  assert (Hn : forall c, next_offset fs c "NULL" = c) by reflexivity.
  rewrite !Hn. unfold next_offset, slot_len. rewrite Hna, Hfa. reflexivity.
Qed.

(** C4 on the code: after [pack out.bin a.sfo NULL NULL NULL NULL NULL NULL
    data.bin] with one-byte sources the offsets are
    [{40, 41, 41, 41, 41, 41, 41, 41}], and [analyze out.bin] prints an
    offset for segment 0 only: segment 7 is printed as "NULL", as it is for
    every header, since [analyze_file] never looks at the file length. *)
Theorem analyze_scenario :
  let r := main env_ok fs_scenario (["pbptool"; "pack"; "out.bin"]%string ++ scenario_inputs) in
  let a := main env_ok (files r) ["pbptool"; "analyze"; "out.bin"]%string in
  exited r = Some 0
  /\ (offset <$> pack_header fs_scenario scenario_inputs)
     = Some [40; 41; 41; 41; 41; 41; 41; 41]
  /\ files r !! "out.bin"%string = Some (header_bytes
       (sample_header x00 0 1 [40; 41; 41; 41; 41; 41; 41; 41]) ++ [x01; x02])
  /\ exited a = Some 0
  /\ stdout a
     = [OutHeaderTitle; OutSignature x00 ch_P ch_B ch_P; OutVersion 1 0; OutOffsetsTitle;
        OutSegment "PARAM.SFO" (Some 40); OutSegment "ICON0.PNG" None;
        OutSegment "ICON1.PMF" None; OutSegment "PIC0.PNG" None;
        OutSegment "PIC1.PNG" None; OutSegment "SND0.AT3" None;
        OutSegment "DATA.PSP" None; OutSegment "DATA.PSAR" None]
  /\ (forall h, analyze_line h 7 = OutSegment "DATA.PSAR" None).
Proof. cbv zeta. repeat split; vm_compute; reflexivity. Qed.

(** C1 on the code: eight one-byte sources, each holding 'A', packed and
    unpacked again.  Both runs exit with 0, but [unpack_pbp] reads each
    segment 40 bytes before its offset, inside the header: the eight files
    it writes hold the first eight bytes of the header, not 'A'. *)
Theorem roundtrip_eight :
  let r := main env_ok fs_eight (["pbptool"; "pack"; "out.pbp"]%string ++ eight_names) in
  let u := main env_ok (files r) ["pbptool"; "unpack"; "out.pbp"; "dir"]%string in
  exited r = Some 0
  /\ exited u = Some 0
  /\ stderr u = []
  /\ map (fun p => fs_eight !! p) eight_names = replicate 8 (Some [x41])
  /\ files u !! "dir/PARAM.SFO"%string = Some [x00]
  /\ map (fun i => files u !! outpath "dir" i) (seq 0 8)
     = [Some [x00]; Some [ch_P]; Some [ch_B]; Some [ch_P];
        Some [x00]; Some [x00]; Some [x01]; Some [x00]].
Proof. cbv zeta. repeat split; vm_compute; reflexivity. Qed.


(** * Further properties of the code *)

(** ** The header layout *)

Lemma Z_to_byte_add b v : Z_to_byte (byte_to_Z b + 256 * v) = b.
Proof.
  unfold Z_to_byte. pose proof (byte_to_Z_range b) as Hb.
  replace ((byte_to_Z b + 256 * v) mod 256) with (byte_to_Z b).
  - unfold byte_to_Z. rewrite N2Z.id. by rewrite Byte.of_to_N.
  - rewrite (Z.mul_comm 256 v), Z_mod_plus_full. symmetry. by apply Z.mod_small.
Qed.

Lemma le_bytes_le_value bs : le_bytes (length bs) (le_value bs) = bs.
Proof.
  induction bs as [|b bs IH]; [done|].
  cbn [length le_value le_bytes]. rewrite Z_to_byte_add. f_equal.
  pose proof (byte_to_Z_range b) as Hb.
  replace ((byte_to_Z b + 256 * le_value bs) / 256) with (le_value bs); [done|].
  rewrite (Z.mul_comm 256), Z.div_add by lia. rewrite (Z.div_small (byte_to_Z b)); lia.
Qed.

Lemma le_bytes_le_value_2 a b : le_bytes 2 (le_value [a; b]) = [a; b].
Proof. exact (le_bytes_le_value [a; b]). Qed.

Lemma le_bytes_le_value_4 a b c d : le_bytes 4 (le_value [a; b; c; d]) = [a; b; c; d].
Proof. exact (le_bytes_le_value [a; b; c; d]). Qed.

(** X1: the header on disk round-trips in both directions.  Reading
    fails exactly when the file has fewer than 40 bytes; otherwise the
    header read fits the struct and writes back as the first 40 bytes of the
    file.  Conversely a header that fits the struct occupies 40 bytes and is
    read back unchanged, whatever follows it in the file. *)
Theorem header_read_write content :
  (read_header content = None <-> (length content < 40)%nat)
  /\ (forall h, read_header content = Some h ->
        header_wf h /\ header_bytes h = take 40 content)
  /\ (forall h, header_wf h ->
        length (header_bytes h) = 40%nat
        /\ read_header (header_bytes h ++ content) = Some h).
Proof.
  split; [|split].
  - unfold read_header, sizeof_PBPHeader.
    destruct (Z.ltb_spec (Z.of_nat (length content)) 40); split; intros; try done; lia.
  - intros h Hh. split; [by eapply read_header_wf|].
    unfold read_header, sizeof_PBPHeader in Hh.
    destruct (Z.ltb_spec (Z.of_nat (length content)) 40) as [|Hlen]; [done|].
    injection Hh as <-.
    do 40 (destruct content as [|? content]; [cbn [length] in Hlen; lia|]).
    unfold header_bytes.
    cbn [signature version offset take drop map seq flat_map app Nat.add Nat.mul].
    rewrite !le_bytes_le_value_2, !le_bytes_le_value_4. reflexivity.
  - intros h Hwf. split; [by apply length_header_bytes | by apply read_header_bytes].
Qed.

Lemma header_read_write_witness :
  header_bytes (default zero_header (read_header packed_eight)) = take 40 packed_eight.
Proof.
  refine (proj2 (proj1 (proj2 (header_read_write packed_eight)) _ _)).
  vm_compute. reflexivity.
Defined.

(** ** Validator *)

Lemma byte_eqb_spec a b : reflect (a = b) (Byte.eqb a b).
Proof.
  destruct (Byte.eqb a b) eqn:E; constructor.
  - by apply Byte.byte_dec_bl.
  - by apply Byte.eqb_false.
Qed.

(** X2: [validate_header] returns -1 exactly when one of the signature
    bytes 1..3 is not 'P','B','P', whatever the version is; it returns 0,
    -1 or -2 and prints its "Invalid version" line exactly when it
    returns -2. *)
Theorem validate_header_signature h :
  ((validate_header h).1 = -1 <->
     ~ (signature h !!! 1%nat = ch_P /\ signature h !!! 2%nat = ch_B
        /\ signature h !!! 3%nat = ch_P))
  /\ ((validate_header h).1 = 0 \/ (validate_header h).1 = -1 \/ (validate_header h).1 = -2)
  /\ ((validate_header h).1 = -2 <->
      (validate_header h).2 = [ErrInvalidVersion (version h !!! 0%nat) (version h !!! 1%nat)])
  /\ ((validate_header h).1 <> -2 -> (validate_header h).2 = []).
Proof.
  unfold validate_header.
  destruct (byte_eqb_spec (signature h !!! 1%nat) ch_P) as [E1|E1];
  destruct (byte_eqb_spec (signature h !!! 2%nat) ch_B) as [E2|E2];
  destruct (byte_eqb_spec (signature h !!! 3%nat) ch_P) as [E3|E3];
  cbn [negb orb];
  try (destruct (negb (version h !!! 1%nat =? 1) && negb (version h !!! 0%nat =? 0)));
  cbn [fst snd]; (split; [split|split; [|split; [split|]]]); intros; try done; try tauto;
  try lia; try (exfalso; tauto).
Qed.

Lemma validate_header_signature_witness :
  (validate_header bad_signature_header).1 = -1.
Proof.
  refine (proj2 (proj1 (validate_header_signature bad_signature_header)) _).
  intros (_ & H & _). discriminate H.
Defined.

(** ** inspect *)

Lemma analyze_file_cases fs p :
  (exists content h,
     fs !! p = Some content /\ read_header content = Some h
     /\ (validate_header h).1 = 0
     /\ analyze_file fs p =
        {| exited := None; files := fs;
           stdout :=
             [OutHeaderTitle;
              OutSignature (signature h !!! 0%nat) (signature h !!! 1%nat)
                           (signature h !!! 2%nat) (signature h !!! 3%nat);
              OutVersion (version h !!! 1%nat) (version h !!! 0%nat);
              OutOffsetsTitle]
             ++ map (analyze_line h) (seq 0 8);
           stderr := [] |})
  \/ ((forall content h, fs !! p = Some content -> read_header content = Some h ->
         (validate_header h).1 <> 0)
      /\ exists e, analyze_file fs p = die fs e).
Proof.
  unfold analyze_file. destruct (fs !! p) as [content|] eqn:Hin.
  2:{ right. split; [intros; discriminate | by eexists]. }
  destruct (read_header content) as [h|] eqn:Hh.
  2:{ right. split; [intros ? ? [= <-]; congruence | by eexists]. }
  destruct (Z.eq_dec (validate_header h).1 0) as [Hv|Hv].
  - left. exists content, h. rewrite (validate_header_ok_quiet h Hv). by cbn.
  - right. split; [intros ? ? [= <-]; congruence|].
    destruct (validate_header h) as [v diag]. cbn [fst] in Hv.
    destruct (Z.eqb_spec v 0); [done|]. cbn [negb]. by eexists.
Qed.

(** X3: [analyze_file] returns normally exactly when the file exists,
    holds at least 40 bytes and its header passes [validate_header]; then
    it prints four header lines and eight segment lines and nothing on
    [stderr].  In every other case it exits with 1 and prints nothing on
    [stdout].  It never changes a file. *)
Theorem analyze_file_outcome fs p :
  files (analyze_file fs p) = fs
  /\ (exited (analyze_file fs p) = None <->
      exists content h, fs !! p = Some content /\ read_header content = Some h
                        /\ (validate_header h).1 = 0)
  /\ (exited (analyze_file fs p) = None ->
      stderr (analyze_file fs p) = [] /\ length (stdout (analyze_file fs p)) = 12%nat)
  /\ (exited (analyze_file fs p) <> None ->
      exited (analyze_file fs p) = Some 1 /\ stdout (analyze_file fs p) = []).
Proof.
  destruct (analyze_file_cases fs p) as [(content & h & Hin & Hh & Hv & ->)
                                        | (Hbad & e & ->)]; cbn.
  - split; [done|]. split; [split; [intros _; by exists content, h | done]|].
    split; [done|]. intros H. by destruct H.
  - split; [done|]. split; [split; [done|]|].
    + intros (content & h & Hin & Hh & Hv). by destruct (Hbad content h).
    + split; [done|]. done.
Qed.

Lemma analyze_file_outcome_witness :
  exited (analyze_file fs_truncated "t.pbp") = None.
Proof.
  refine (proj2 (proj1 (proj2 (analyze_file_outcome fs_truncated "t.pbp"))) _).
  exists truncated_eight, (default zero_header (read_header truncated_eight)).
  split; [reflexivity|]. split; vm_compute; reflexivity.
Defined.

(** ** split *)

Lemma unpack_pbp_cases env fs input dir :
  (exists content h,
     fs !! input = Some content /\ read_header content = Some h
     /\ (validate_header h).1 = 0 /\ mkdir_ok env dir = true
     /\ unpack_pbp env fs input dir =
        {| exited := None;
           files := (unpack_loop env dir content h (seq 0 8) (fs, [])).1;
           stdout := [];
           stderr := (unpack_loop env dir content h (seq 0 8) (fs, [])).2 |})
  \/ ((exited (analyze_file fs input) <> None \/ mkdir_ok env dir = false)
      /\ exists e, unpack_pbp env fs input dir = die fs e).
Proof.
  unfold unpack_pbp, analyze_file. destruct (fs !! input) as [content|] eqn:Hin.
  2:{ right. split; [by left | by eexists]. }
  destruct (read_header content) as [h|] eqn:Hh.
  2:{ right. split; [by left | by eexists]. }
  destruct (Z.eq_dec (validate_header h).1 0) as [Hv|Hv].
  - rewrite (validate_header_ok_quiet h Hv). cbn [Z.eqb negb].
    destruct (mkdir_ok env dir) eqn:Hd; cbn [negb].
    + left. by exists content, h.
    + right. split; [by right | by eexists].
  - destruct (validate_header h) as [v diag]. cbn [fst] in Hv.
    destruct (Z.eqb_spec v 0); [done|]. cbn [negb]. right. split; [by left | by eexists].
Qed.



Lemma unpack_loop_keeps env dir content h p idx :
  forall st, is_Some (st.1 !! p) ->
  is_Some ((unpack_loop env dir content h idx st).1 !! p).
Proof.
  induction idx as [|i idx IH]; intros st Hp; [done|].
  rewrite unpack_loop_cons. apply IH.
  unfold unpack_segment. repeat case_match; cbn [fst]; try done.
  destruct (decide (outpath dir i = p)) as [->|Hne].
  - rewrite lookup_insert_eq. by eexists.
  - by rewrite lookup_insert_ne.
Qed.

(** X5: [unpack_pbp] touches no path other than the eight
    [<dir>/<canonical name>] outputs, and it never removes a file. *)
Theorem unpack_pbp_frame env fs input dir p :
  ((forall i, (i < 8)%nat -> p <> outpath dir i) ->
   files (unpack_pbp env fs input dir) !! p = fs !! p)
  /\ (is_Some (fs !! p) -> is_Some (files (unpack_pbp env fs input dir) !! p)).
Proof.
  destruct (unpack_pbp_cases env fs input dir)
    as [(content & h & Hin & Hh & Hv & Hd & ->) | (Hbad & e & ->)]; cbn [files die];
    [|done].
  split.
  - intros Hp. rewrite unpack_loop_other; [done|].
    intros j Hj. apply elem_of_seq in Hj. apply Hp. lia.
  - intros Hp. by apply unpack_loop_keeps.
Qed.

Lemma unpack_pbp_frame_witness :
  files (unpack_pbp env_ok fs_truncated "t.pbp" "out") !! "t.pbp"%string
  = fs_truncated !! "t.pbp"%string.
Proof.
  refine (proj1 (unpack_pbp_frame env_ok fs_truncated "t.pbp" "out" "t.pbp") _).
  intros i Hi. do 8 (destruct i as [|i]; [discriminate|]). lia.
Defined.

(** ** assemble *)



(** The run of a successful [pack_pbp]. *)
Lemma packed_run env fs output inputs :
  length inputs = 8%nat ->
  exited (pack_pbp env fs output inputs) = None ->
  first_unreadable fs inputs = None
  /\ can_create env output = true
  /\ pack_pbp env fs output inputs
     = {| exited := None; files := <[output := packed_container fs inputs]> fs;
          stdout := []; stderr := [] |}
  /\ header_wf (packed_header fs inputs)
  /\ read_header (packed_container fs inputs) = Some (packed_header fs inputs)
  /\ validate_header (packed_header fs inputs) = (0, [])
  /\ Z.of_nat (length (packed_container fs inputs)) = 40 + sources_size fs inputs.
Proof.
  intros Hlen. rewrite pack_pbp_closed by done.
  destruct (first_unreadable fs inputs); [discriminate|].
  destruct (can_create env output); [|discriminate]. cbn [negb]. intros _.
  pose proof (packed_header_wf fs inputs Hlen) as Hwf.
  repeat split; try done; try apply Hwf.
  - by apply read_header_bytes.
  - unfold packed_container.
    rewrite length_app, Nat2Z.inj_add, length_flat_map_source_bytes.
    unfold packed_header. rewrite (length_header_bytes _ Hwf). lia.
Qed.



Lemma offsets_from_lengths fs1 fs2 ps1 :
  forall ps2 c, 0 <= c < 2 ^ 32 ->
  map (slot_len fs1) ps1 = map (slot_len fs2) ps2 ->
  offsets_from fs1 c ps1 = offsets_from fs2 c ps2.
Proof.
  induction ps1 as [|p1 ps1 IH]; intros [|p2 ps2] c Hc Hmap; try discriminate; [done|].
  cbn [map] in Hmap. injection Hmap as Hlen Hmap. cbn [offsets_from]. f_equal.
  rewrite !next_offset_sum by (by apply to_uint32_small). rewrite Hlen.
  apply IH; [apply to_uint32_range | done].
Qed.

(** X7: the container a successful [pack_pbp] writes depends only on
    the bytes each slot contributes: two runs whose slots contribute the
    same byte sequences write the same destination file.  In particular a
    readable empty source and "NULL" give the same container. *)
Theorem pack_pbp_bytes_only env fs1 fs2 output inputs1 inputs2 :
  length inputs1 = 8%nat -> length inputs2 = 8%nat ->
  exited (pack_pbp env fs1 output inputs1) = None ->
  exited (pack_pbp env fs2 output inputs2) = None ->
  map (source_bytes fs1) inputs1 = map (source_bytes fs2) inputs2 ->
  files (pack_pbp env fs1 output inputs1) !! output
  = files (pack_pbp env fs2 output inputs2) !! output.
Proof.
  intros Hl1 Hl2 He1 He2 Hmap.
  destruct (packed_run _ _ _ _ Hl1 He1) as (_ & _ & -> & _).
  destruct (packed_run _ _ _ _ Hl2 He2) as (_ & _ & -> & _).
  cbn [files]. rewrite !lookup_insert_eq. f_equal.
  unfold packed_container, packed_header. rewrite !flat_map_concat_map, Hmap. do 3 f_equal.
  apply offsets_from_lengths; [lia|].
  assert (Hsl : forall fs ps, map (slot_len fs) ps
            = map (fun b : list byte => Z.of_nat (length b)) (map (source_bytes fs) ps)).
  { intros fs ps. rewrite map_map. apply map_ext. intros p.
    symmetry. apply length_source_bytes. }
  by rewrite !Hsl, Hmap.
Qed.

Lemma pack_pbp_bytes_only_witness :
  files (pack_pbp env_ok fs_with_empty "out.pbp" inputs_with_empty) !! "out.pbp"%string
  = files (pack_pbp env_ok fs_scenario "out.pbp" scenario_inputs) !! "out.pbp"%string.
Proof.
  refine (pack_pbp_bytes_only env_ok fs_with_empty fs_scenario "out.pbp"
            inputs_with_empty scenario_inputs _ _ _ _ _);
    vm_compute; reflexivity.
Defined.

(** ** assemble, then the offset resolver *)

Lemma packed_offset fs inputs i :
  length inputs = 8%nat ->
  40 + sources_size fs inputs < 2 ^ 32 ->
  (i < 8)%nat ->
  offset (packed_header fs inputs) !!! i = 40 + sources_size fs (take i inputs).
Proof.
  intros Hlen Hfit Hi. cbn [packed_header offset].
  rewrite offsets_from_lookup by lia. apply to_uint32_small.
  pose proof (sources_size_nonneg fs (take i inputs)).
  pose proof (sources_size_take_le fs inputs i). lia.
Qed.

Lemma sources_size_step fs inputs i :
  (i < length inputs)%nat ->
  sources_size fs (take (S i) inputs)
  = sources_size fs (take i inputs) + slot_len fs (inputs !!! i).
Proof. intros Hi. by apply sources_size_take_S, list_lookup_lookup_total_lt. Qed.

Lemma packed_segment_size fs inputs i :
  length inputs = 8%nat ->
  40 + sources_size fs inputs < 2 ^ 32 ->
  (i < 8)%nat ->
  segment_size (packed_header fs inputs) (40 + sources_size fs inputs) i
  = slot_len fs (inputs !!! i).
Proof.
  intros Hlen Hfit Hi.
  pose proof (slot_len_nonneg fs (inputs !!! i)) as Hnn.
  pose proof (sources_size_nonneg fs (take i inputs)) as Hpre.
  pose proof (sources_size_step fs inputs i ltac:(lia)) as Hstep.
  pose proof (sources_size_take_le fs inputs (S i)) as Hle.
  unfold segment_size. rewrite !Z.gtb_ltb.
  destruct (Nat.ltb_spec (i + 1) 8) as [Hi7|Hi7].
  - rewrite !packed_offset by lia. replace (i + 1)%nat with (S i) by lia. rewrite Hstep.
    destruct (Z.ltb_spec (40 + sources_size fs (take i inputs))
                (40 + (sources_size fs (take i inputs) + slot_len fs (inputs !!! i))));
      [rewrite to_uint32_small; lia | lia].
  - assert (i = 7%nat) as -> by lia. rewrite packed_offset by lia.
    rewrite (take_ge inputs 8) in Hstep by lia.
    rewrite (to_uint32_small (40 + sources_size fs inputs))
      by (pose proof (sources_size_nonneg fs inputs); lia).
    destruct (Z.ltb_spec (40 + sources_size fs (take 7 inputs)) (40 + sources_size fs inputs));
      [rewrite to_uint32_small; lia | lia].
Qed.

(** X8: from the container a successful [pack_pbp] wrote, as long as
    it is shorter than 2^32 bytes, the offset resolver of [unpack_pbp]
    recovers the layout: the header read from the file stores for slot [i]
    the offset 40 plus the lengths of the earlier sources, and the computed
    length of segment [i] is the length of source [i] (0 for "NULL"). *)
Theorem resolver_after_pack env fs output inputs i :
  length inputs = 8%nat ->
  exited (pack_pbp env fs output inputs) = None ->
  40 + sources_size fs inputs < 2 ^ 32 ->
  (i < 8)%nat ->
  exists container h,
    files (pack_pbp env fs output inputs) !! output = Some container
    /\ read_header container = Some h
    /\ offset h !!! i = 40 + sources_size fs (take i inputs)
    /\ segment_size h (Z.of_nat (length container)) i = slot_len fs (inputs !!! i).
Proof.
  intros Hlen He Hfit Hi.
  destruct (packed_run _ _ _ _ Hlen He) as (_ & _ & -> & _ & Hread & _ & Hsize).
  exists (packed_container fs inputs), (packed_header fs inputs). cbn [files].
  split; [by rewrite lookup_insert_eq|]. split; [done|].
  split; [by apply packed_offset|]. rewrite Hsize. by apply packed_segment_size.
Qed.

Lemma resolver_after_pack_witness :
  exists container h,
    files (pack_pbp env_ok fs_scenario "out.bin" scenario_inputs) !! "out.bin"%string
    = Some container
    /\ read_header container = Some h
    /\ offset h !!! 7%nat = 40 + sources_size fs_scenario (take 7 scenario_inputs)
    /\ segment_size h (Z.of_nat (length container)) 7
       = slot_len fs_scenario (scenario_inputs !!! 7%nat).
Proof.
  refine (resolver_after_pack env_ok fs_scenario "out.bin" scenario_inputs 7 _ _ _ _).
  - reflexivity.
  - vm_compute. reflexivity.
  - vm_compute. reflexivity.
  - lia.
Defined.
